(** * setup.py: the project scaffolding script

    A shallow embedding of [setup.py] and of the two library calls it
    makes ([os.makedirs] and [subprocess.run]), followed by the properties
    of the script: completeness, idempotence and order independence of the
    directory creation, and the way failures of either phase end the
    process. *)

From Stdlib Require Import ZArith Ascii String.
From stdpp Require Import gmap strings list fin_maps.

Local Open Scope Z_scope.
Local Open Scope string_scope.
Local Open Scope list_scope.

(** ** Paths

    Every path the script touches is [os.path.join(os.getcwd(), dir_path)],
    so paths are kept relative to the working directory.  A path is the list
    of its components, innermost first: the parent of [c :: p] is [p],
    [[]] is the working directory itself, and the ancestors of a path are
    its proper suffixes. *)

Abbreviation path := (list string).

(** [str.split(sep)] on a single separator character. *)
Fixpoint split_on (sep : ascii) (s : string) : list string :=
  match s with
  | EmptyString => [EmptyString]
  | String c s' =>
      if decide (c = sep) then EmptyString :: split_on sep s'
      else match split_on sep s' with
           | h :: t => String c h :: t
           | [] => [String c EmptyString]
           end
  end.

Definition nonempty (s : string) : bool :=
  match s with EmptyString => false | String _ _ => true end.

(** [os.path.join(os.getcwd(), dir_path)] for a relative [dir_path]:
    the components of [dir_path] below the working directory (repeated
    separators name no component). *)
Definition join_cwd (dir_path : string) : path :=
  rev (List.filter nonempty (split_on "/" dir_path)).

(** ** File system

    Entries are regular files and directories.  The model keeps to trees
    without symbolic links in which every directory can be searched; of the
    permissions only the right to add an entry to a directory is kept. *)

Inductive node : Type :=
  | File
  | Dir (writable : bool).

(** The tree below the working directory, as a finite map from paths to
    nodes. *)
Abbreviation FS := (gmap (list string) node).

Definition is_dir (fs : FS) (p : path) : Prop :=
  ∃ w, fs !! p = Some (Dir w).

(** A tree: the working directory is a directory and every other entry
    sits in a directory. *)
Definition wf (fs : FS) : Prop :=
  is_dir fs [] ∧ ∀ c p, is_Some (fs !! (c :: p)) → is_dir fs p.

(** An empty, writable working directory. *)
Definition empty_base : FS := {[ [] := Dir true ]}.

(** ** Exceptions, events and the state of a run

    [OSError] is what the design calls a FilesystemError when it comes from
    the creation of a directory; [CalledProcessError] is its InstallError
    and carries the return code of the command. *)

Inductive oserror : Type :=
  | FileExistsError
  | FileNotFoundError
  | NotADirectoryError
  | PermissionError.

Inductive exn : Type :=
  | OSError (e : oserror)
  | CalledProcessError (returncode : Z) (cmd : list string)
  | SystemExit (code : Z).

(** What an observer of the process sees, in order: what the script
    prints (the argument of each [print]), the attempt to launch a command,
    and the lines the child writes to the inherited standard streams. *)
Inductive event : Type :=
  | Print (line : string)
  | Exec (argv : list string)
  | ChildOutput (line : string).

Record world : Type := World { w_fs : FS; w_log : list event }.

(** Computations of the script: state passing with exceptions. *)
Definition M (A : Type) : Type := world → world * (exn + A).

Definition ret {A} (a : A) : M A := λ w, (w, inr a).

Definition raise {A} (e : exn) : M A := λ w, (w, inl e).

Definition bind {A B} (m : M A) (k : A → M B) : M B := λ w,
  match m w with
  | (w', inr a) => k a w'
  | (w', inl e) => (w', inl e)
  end.

Notation "'do' x <- m ; k" := (bind m (λ x, k))
  (at level 10, x name, m at level 100, k at level 200).
Notation "m ;; k" := (bind m (λ _, k))
  (at level 100, k at level 200, right associativity).

(** [try: body except ...: ...]: [handler e] is [None] when no [except]
    clause matches [e], which then propagates. *)
Definition try_except {A} (body : M A) (handler : exn → option (M A)) : M A :=
  λ w,
  match body w with
  | (w', inr a) => (w', inr a)
  | (w', inl e) =>
      match handler e with
      | Some h => h w'
      | None => (w', inl e)
      end
  end.

(** [for x in xs: body]. *)
Fixpoint for_each {A} (xs : list A) (body : A → M unit) : M unit :=
  match xs with
  | [] => ret tt
  | x :: xs' => body x ;; for_each xs' body
  end.

Definition print (line : string) : M unit := λ w,
  (World (w_fs w) (w_log w ++ [Print line]), inr tt).

(** [exit(code)]. *)
Definition exit (code : Z) : M unit := raise (SystemExit code).

(** ** The [os] module *)

(** [os.path.exists]. *)
Definition path_exists (p : path) : M bool := λ w,
  (w, inr (bool_decide (is_Some (w_fs w !! p)))).

(** [os.path.isdir]. *)
Definition path_isdir (p : path) : M bool := λ w,
  (w, inr (match w_fs w !! p with Some (Dir _) => true | _ => false end)).

(** [os.mkdir]: one directory, whose parent must be a writable directory
    and which must not exist yet.  The new directory is writable: the
    file-creation mask of the process is taken to leave the owner's write
    bit, as the usual masks do.  The errors come in the order of the system
    call: the parent is looked up first, then the name, then the right to
    write.  The working directory itself is never created. *)
Definition mkdir (p : path) : M unit := λ w,
  match p with
  | [] =>
      (w, inl (OSError (if bool_decide (is_Some (w_fs w !! []))
                        then FileExistsError else FileNotFoundError)))
  | _ :: parent =>
      match w_fs w !! parent with
      | None => (w, inl (OSError FileNotFoundError))
      | Some File => (w, inl (OSError NotADirectoryError))
      | Some (Dir wr) =>
          match w_fs w !! p with
          | Some _ => (w, inl (OSError FileExistsError))
          | None =>
              if wr then (World (<[p := Dir true]> (w_fs w)) (w_log w), inr tt)
              else (w, inl (OSError PermissionError))
          end
      end
  end.

(** [os.makedirs(name, exist_ok=exist_ok)]: when the parent [head] does
    not exist, create it by a recursive call (a [FileExistsError] from that
    call is ignored), then [mkdir] the directory itself; an [OSError] of
    that [mkdir] is re-raised unless [exist_ok] is set and [name] is a
    directory.  Components are plain names, so the shortcut of the library
    for a last component [.] never applies. *)
Fixpoint makedirs (name : path) (exist_ok : bool) : M unit :=
  match name with
  | [] => ret tt
  | _ :: head =>
      do found <- path_exists head;
      if negb found then
        try_except (makedirs head exist_ok)
          (λ e, match e with
                | OSError FileExistsError => Some (ret tt)
                | _ => None
                end)
      else ret tt
  end ;;
  try_except (mkdir name)
    (λ e, match e with
          | OSError _ =>
              Some (do isd <- path_isdir name;
                    if negb exist_ok || negb isd then raise e else ret tt)
          | _ => None
          end).

(** ** The [subprocess] module *)

(** What launching a command does: either the launch itself fails with an
    [OSError], or the child runs to its end, leaving a file system, the
    lines it wrote and its return code. *)
Inductive child : Type :=
  | NotLaunched (e : oserror)
  | Exited (fs' : FS) (output : list string) (returncode : Z).

Section Script.

(** The commands available on the execution path, and Python's [str()] of
    a [CalledProcessError]. *)
Variable installer : list string → FS → child.
Variable exc_str : exn → string.

(** [subprocess.run(cmd, check=check)] with inherited standard streams;
    the result is the child's return code. *)
Definition subprocess_run (cmd : list string) (check : bool) : M Z := λ w,
  let log := w_log w ++ [Exec cmd] in
  match installer cmd (w_fs w) with
  | NotLaunched e => (World (w_fs w) log, inl (OSError e))
  | Exited fs' output rc =>
      let w' := World fs' (log ++ map ChildOutput output) in
      if check && negb (Z.eqb rc 0) then (w', inl (CalledProcessError rc cmd))
      else (w', inr rc)
  end.

(** ** setup.py *)

Definition dirs : list string :=
  [ "src/app/api/ai/chat";
    "src/app/api/ai/generate";
    "src/app/api/ai/summarize";
    "src/app/blog/[slug]";
    "src/components/ui";
    "src/components/blog";
    "src/components/ai";
    "src/lib/firebase";
    "src/lib/openai";
    "src/types";
    "src/utils";
    "content/posts";
    "tests/unit";
    "tests/e2e";
    ".github/workflows";
    "public/images" ].

Definition newline : string := String "010"%char EmptyString.

(** The body of the [for dir_path in dirs] loop. *)
Definition create_one (dir_path : string) : M unit :=
  let full_path := join_cwd dir_path in
  makedirs full_path true ;;
  print ("  Created: " +:+ dir_path).

(** The loop itself, over any list of paths. *)
Definition ensure_structure (paths : list string) : M unit :=
  for_each paths create_one.

(** The [try] ... [except subprocess.CalledProcessError as e] block. *)
Definition install_dependencies (command : list string) : M unit :=
  try_except
    (subprocess_run command true ;;
     print (newline +:+ "Project setup complete!"))
    (λ e, match e with
          | CalledProcessError _ _ =>
              Some (print ("Error installing dependencies: " +:+ exc_str e) ;;
                    exit 1)
          | _ => None
          end).

(** The whole script, over the list of directories. *)
Definition script (paths : list string) : M unit :=
  print "Creating project structure..." ;;
  ensure_structure paths ;;
  print (newline +:+ "Structure created successfully!") ;;
  print ("Installing dependencies..." +:+ newline) ;;
  install_dependencies ["npm"; "install"].

Definition main : M unit := script dirs.

(** ** The interpreter around the script

    A run ends normally with status 0; [SystemExit] ends it with the given
    status and no traceback; any other exception reaching the top level
    prints a traceback and ends it with status 1. *)
Record outcome : Type :=
  Outcome { final : world; status : Z; traceback : option exn }.

Definition python (prog : M unit) (fs0 : FS) : outcome :=
  match prog (World fs0 []) with
  | (w, inr _) => Outcome w 0 None
  | (w, inl (SystemExit code)) => Outcome w code None
  | (w, inl e) => Outcome w 1 (Some e)
  end.

End Script.

(** ** Closed forms used to state the properties *)

(** The directories [makedirs p] adds to an empty tree: [p] and its
    ancestors below the working directory, all freshly created. *)
Fixpoint chain (p : path) : FS :=
  match p with
  | [] => ∅
  | _ :: parent => <[p := Dir true]> (chain parent)
  end.

(** Whether [makedirs p] can succeed on [fs]: [p] is a directory, or it is
    missing, its parent can be made and a new entry can be added there. *)
Fixpoint creatable (fs : FS) (p : path) : bool :=
  match p with
  | [] => true
  | _ :: parent =>
      match fs !! p with
      | Some (Dir _) => true
      | Some File => false
      | None =>
          creatable fs parent &&
          match fs !! parent with
          | Some (Dir w) => w
          | Some File => false
          | None => true
          end
      end
  end.

(** All entries of a list can be created on [fs]. *)
Definition all_creatable (fs : FS) (paths : list string) : Prop :=
  Forall (λ d, creatable fs (join_cwd d) = true) paths.

(** Everything a list of relative paths asks for. *)
Definition closure (paths : list string) : FS :=
  foldr (λ d m, chain (join_cwd d) ∪ m) ∅ paths.

(** The progress line of one entry. *)
Definition progress (dir_path : string) : event :=
  Print ("  Created: " +:+ dir_path).

(** The lines a run prints itself. *)
Definition printed (log : list event) : list event :=
  List.filter (λ e, match e with Print _ => true | _ => false end) log.

(** What the script has printed when the loop starts, and what it prints
    between the loop and the installer. *)
Definition banner : list event := [Print "Creating project structure..."].

Definition handover : list event :=
  [ Print (newline +:+ "Structure created successfully!");
    Print ("Installing dependencies..." +:+ newline) ].

Definition npm_install : list string := ["npm"; "install"].

(** The state in which the loop leaves an empty base directory. *)
Definition scaffolded : world :=
  World (empty_base ∪ closure dirs) (banner ++ map progress dirs).

(** The script prints nothing of its own once it has launched a command. *)
Definition silent_after_installer (log : list event) : Prop :=
  ∀ before argv after, log = before ++ Exec argv :: after → printed after = [].

(** A checker for [wf]. *)
Definition wfb (fs : FS) : bool :=
  match fs !! [] with Some (Dir _) => true | _ => false end &&
  forallb (λ e, match e.1 with
                | [] => true
                | _ :: parent =>
                    match fs !! parent with Some (Dir _) => true | _ => false end
                end) (map_to_list fs).

(** Stand-ins for the installer: a command that leaves the tree alone,
    writes nothing and exits with a given status, and a command that is
    not on the execution path. *)
Definition exits_with (rc : Z) : list string → FS → child :=
  λ _ fs, Exited fs [] rc.

Definition not_installed : list string → FS → child :=
  λ _ _, NotLaunched FileNotFoundError.

(** An installer that removes no directory. *)
Definition keeps_directories (installer : list string → FS → child) : Prop :=
  ∀ cmd fs fs' out rc,
    installer cmd fs = Exited fs' out rc → ∀ p, is_dir fs p → is_dir fs' p.

(** [str()] of the [CalledProcessError] of [npm install] exiting with
    status 2. *)
Definition str_status_2 : exn → string :=
  λ _, "Command '['npm', 'install']' returned non-zero exit status 2.".

(** The sixteen listed directories and the eleven directories they imply,
    component by component. *)
Definition listed_paths : list path :=
  [ ["chat"; "ai"; "api"; "app"; "src"];
    ["generate"; "ai"; "api"; "app"; "src"];
    ["summarize"; "ai"; "api"; "app"; "src"];
    ["[slug]"; "blog"; "app"; "src"];
    ["ui"; "components"; "src"];
    ["blog"; "components"; "src"];
    ["ai"; "components"; "src"];
    ["firebase"; "lib"; "src"];
    ["openai"; "lib"; "src"];
    ["types"; "src"];
    ["utils"; "src"];
    ["posts"; "content"];
    ["unit"; "tests"];
    ["e2e"; "tests"];
    ["workflows"; ".github"];
    ["images"; "public"] ].

Definition implied_paths : list path :=
  [ ["src"]; ["app"; "src"]; ["api"; "app"; "src"];
    ["ai"; "api"; "app"; "src"]; ["blog"; "app"; "src"];
    ["components"; "src"]; ["lib"; "src"]; ["content"]; ["tests"];
    [".github"]; ["public"] ].

(** The base directory with the directories of the scaffold. *)
Definition scaffold_paths : list path :=
  [] :: implied_paths ++ listed_paths.

(** The completeness claim read of a final tree: the listed paths are
    directories, and the tree holds directories only, each of them the
    base, a listed path or an ancestor of one. *)
Definition all_listed_present (fs : FS) : Prop :=
  ∀ d, d ∈ dirs → is_dir fs (join_cwd d).

Definition scaffold_only (fs : FS) : Prop :=
  ∀ q x, fs !! q = Some x →
         (∃ w, x = Dir w) ∧
         (q = [] ∨ ∃ d, d ∈ dirs ∧ q `suffix_of` join_cwd d).

(** Two more stand-ins for the installer, both exiting with status 0: one
    writes a lock file into the base directory, the other removes the
    directory [public/images]. *)
Definition writes_lockfile : list string → FS → child :=
  λ _ fs, Exited (<[ ["package-lock.json"] := File ]> fs) [] 0.

Definition removes_images : list string → FS → child :=
  λ _ fs, Exited (delete ["images"; "public"] fs) [] 0.

(** A writable base directory that holds one regular file named [src]. *)
Definition file_at_src : FS := <[ ["src"] := File ]> empty_base.

(** The error of a failing [makedirs p]: that of the [mkdir] below the
    innermost ancestor that exists. *)
Fixpoint makedirs_err (fs : FS) (p : path) : oserror :=
  match p with
  | [] => FileExistsError
  | _ :: parent =>
      match fs !! parent with
      | Some File => NotADirectoryError
      | Some (Dir _) =>
          match fs !! p with
          | Some _ => FileExistsError
          | None => PermissionError
          end
      | None => makedirs_err fs parent
      end
  end.

(** ** The file-system calls *)

(** Run the file-system calls of a goal on the lookups known so far. *)
Ltac run_fs :=
  unfold bind, path_exists, try_except, mkdir, path_isdir, ret, raise; simpl;
  repeat match goal with
         | H : ?fs !! ?p = _ |- context [?fs !! ?p] => rewrite H; simpl
         end.

Section Makedirs.

Implicit Types (fs : FS) (p q : path) (log : list event).

Lemma suffix_cons_cases {A} (q p : list A) (c : A) :
  q `suffix_of` c :: p → q = c :: p ∨ q `suffix_of` p.
Proof.
  intros [k Hk]. destruct k as [|a k]; simpl in Hk.
  - by left.
  - right. exists k. congruence.
Qed.

Lemma chain_lookup p q :
  chain p !! q =
  if decide (q ≠ [] ∧ q `suffix_of` p) then Some (Dir true) else None.
Proof.
  induction p as [|c p IH]; simpl.
  - rewrite lookup_empty. case_decide as H; [|done].
    destruct H as [Hne Hs]. by apply suffix_nil_inv in Hs.
  - rewrite lookup_insert. destruct (decide (c :: p = q)) as [<-|Hne].
    + rewrite decide_True; [done|]. split; [done|reflexivity].
    + rewrite IH.
      destruct (decide (q ≠ [] ∧ q `suffix_of` p)) as [H1|H1];
        destruct (decide (q ≠ [] ∧ q `suffix_of` c :: p)) as [H2|H2];
        try done.
      * destruct H2. split; [tauto|]. apply suffix_cons_r. tauto.
      * destruct H1. split; [tauto|]. destruct H2 as [_ Hs].
        apply suffix_cons_cases in Hs as [Hs|Hs]; [congruence|done].
Qed.

Lemma chain_lookup_Some p q x :
  chain p !! q = Some x → x = Dir true ∧ q ≠ [] ∧ q `suffix_of` p.
Proof.
  rewrite chain_lookup. destruct (decide _) as [[??]|_]; [|done].
  by intros [= <-].
Qed.

Lemma chain_lookup_self c p : chain (c :: p) !! (c :: p) = Some (Dir true).
Proof. simpl. apply lookup_insert_eq. Qed.

Lemma chain_lookup_longer c p : chain p !! (c :: p) = None.
Proof.
  rewrite chain_lookup. case_decide as H; [|done].
  destruct H as [_ H]. by apply suffix_cons_not in H.
Qed.


(** In a tree, the ancestors of an entry are directories. *)
Lemma wf_suffix fs p q :
  wf fs → is_Some (fs !! p) → q `suffix_of` p → q ≠ p → is_dir fs q.
Proof.
  intros [Hroot Hwf]. revert q. induction p as [|c p IH]; intros q Hp Hs Hne.
  - apply suffix_nil_inv in Hs. congruence.
  - apply suffix_cons_cases in Hs as [Hs|Hs]; [congruence|].
    pose proof (Hwf _ _ Hp) as Hd.
    destruct (decide (q = p)) as [->|Hqp]; [done|].
    apply IH; [|done|done]. destruct Hd as [w Hw]. by rewrite Hw.
Qed.

Lemma wf_union_chain_id fs p : wf fs → is_Some (fs !! p) → fs ∪ chain p = fs.
Proof.
  intros Hwf Hp. apply map_eq. intros k. rewrite lookup_union.
  destruct (fs !! k) as [x|] eqn:Hk.
  - by destruct (chain p !! k).
  - destruct (chain p !! k) as [y|] eqn:Hc; [|done].
    apply chain_lookup_Some in Hc as (_ & _ & Hs).
    destruct (decide (k = p)) as [->|Hne].
    + rewrite Hk in Hp. by destruct Hp.
    + destruct (wf_suffix fs p k Hwf Hp Hs Hne) as [w Hw]. congruence.
Qed.

Lemma creatable_dir fs p : wf fs → is_dir fs p → creatable fs p = true.
Proof. intros _ [w Hw]. destruct p; simpl; [done|]. by rewrite Hw. Qed.

Lemma creatable_parent fs c p :
  wf fs → creatable fs (c :: p) = true → creatable fs p = true.
Proof.
  intros Hwf. simpl. destruct (fs !! (c :: p)) as [[|w]|] eqn:Hp; [done| |].
  - intros _. apply creatable_dir; [done|]. apply Hwf with c. by rewrite Hp.
  - by intros [? _]%andb_prop.
Qed.

Lemma creatable_suffix fs p q :
  wf fs → creatable fs p = true → q `suffix_of` p → creatable fs q = true.
Proof.
  intros Hwf. induction p as [|c p IH]; intros Hc Hs.
  - apply suffix_nil_inv in Hs. by subst.
  - apply suffix_cons_cases in Hs as [->|Hs]; [done|].
    apply IH; [|done]. by apply creatable_parent with c.
Qed.

(** On the way to a creatable path no file is met. *)
Lemma creatable_no_file fs p q :
  wf fs → creatable fs p = true → q `suffix_of` p → fs !! q ≠ Some File.
Proof.
  intros Hwf Hc Hs Hq.
  pose proof (creatable_suffix fs p q Hwf Hc Hs) as Hcq.
  destruct q as [|c q]; simpl in Hcq.
  - destruct Hwf as [[w Hw] _]. congruence.
  - by rewrite Hq in Hcq.
Qed.

(** [makedirs] on a tree: it adds the missing part of the chain, or fails
    and changes nothing; [FileExistsError] only leaves it when the path
    itself is a file. *)
Lemma makedirs_spec fs log p :
  wf fs →
  if creatable fs p
  then makedirs p true (World fs log) = (World (fs ∪ chain p) log, inr tt)
  else ∃ e, makedirs p true (World fs log) = (World fs log, inl (OSError e))
            ∧ (e = FileExistsError → fs !! p = Some File).
Proof.
  intros Hwf. induction p as [|c p IH].
  - destruct Hwf as [[w Hw] _]. simpl.
    unfold bind, ret, try_except, mkdir, path_isdir; simpl.
    rewrite Hw. simpl. by rewrite map_union_empty.
  - pose proof (proj2 Hwf c p) as Hpar.
    destruct (fs !! p) as [[|wr]|] eqn:Hp.
    + (* the parent is a file *)
      destruct (fs !! (c :: p)) as [x|] eqn:Hcp.
      { destruct Hpar as [w Hw]; [done|congruence]. }
      simpl. rewrite Hcp, Hp, andb_false_r.
      exists NotADirectoryError. split; [|done]. by run_fs.
    + (* the parent is a directory *)
      destruct (fs !! (c :: p)) as [[|wr']|] eqn:Hcp.
      * simpl. rewrite Hcp. exists FileExistsError. split; [|done]. by run_fs.
      * simpl. rewrite Hcp. run_fs.
        change (<[c :: p:=Dir true]> (chain p)) with (chain (c :: p)).
        rewrite wf_union_chain_id; [done|done|by rewrite Hcp].
      * simpl. rewrite Hcp, Hp.
        rewrite (creatable_dir fs p Hwf) by (by exists wr). simpl.
        destruct wr.
        -- run_fs. rewrite <- insert_union_r by done.
           rewrite wf_union_chain_id; [done|done|by rewrite Hp].
        -- exists PermissionError. split; [|done]. by run_fs.
    + (* the parent is missing *)
      destruct (fs !! (c :: p)) as [x|] eqn:Hcp.
      { destruct Hpar as [w Hw]; [done|congruence]. }
      assert (p ≠ []) as Hne.
      { intros ->. destruct Hwf as [[w Hw] _]. congruence. }
      simpl. rewrite Hcp, Hp, andb_true_r.
      destruct (creatable fs p).
      * run_fs. rewrite IH. simpl.
        rewrite !lookup_union, Hp, Hcp, chain_lookup_longer.
        destruct p as [|c' p']; [done|]. rewrite chain_lookup_self. simpl.
        by rewrite insert_union_r.
      * destruct IH as (e & He & Hfile). exists e. split.
        -- run_fs. rewrite He.
           destruct e; try done. specialize (Hfile eq_refl). congruence.
        -- intros ->. specialize (Hfile eq_refl). congruence.
Qed.

Lemma makedirs_ok fs log p :
  wf fs → creatable fs p = true →
  makedirs p true (World fs log) = (World (fs ∪ chain p) log, inr tt).
Proof. intros Hwf Hc. pose proof (makedirs_spec fs log p Hwf) as H. by rewrite Hc in H. Qed.

Lemma makedirs_fail fs log p :
  wf fs → creatable fs p = false →
  ∃ e, makedirs p true (World fs log) = (World fs log, inl (OSError e)).
Proof.
  intros Hwf Hc. pose proof (makedirs_spec fs log p Hwf) as H.
  rewrite Hc in H. destruct H as (e & He & _). by exists e.
Qed.

(** A successful [makedirs] leaves a tree. *)
Lemma wf_union_chain fs p :
  wf fs → creatable fs p = true → wf (fs ∪ chain p).
Proof.
  intros Hwf Hc. split.
  - destruct Hwf as [[w Hw] _]. exists w. by apply lookup_union_Some_l.
  - intros c q [x Hx]. apply lookup_union_Some_raw in Hx as [Hx|[Hn Hx]].
    + destruct (proj2 Hwf c q) as [w Hw]; [by rewrite Hx|].
      exists w. by apply lookup_union_Some_l.
    + apply chain_lookup_Some in Hx as (_ & _ & Hs).
      pose proof (creatable_suffix fs p _ Hwf Hc Hs) as Hcq.
      simpl in Hcq. rewrite Hn in Hcq. apply andb_prop in Hcq as [_ Hcq].
      destruct (fs !! q) as [[|w]|] eqn:Hq; [done| |].
      * exists w. by apply lookup_union_Some_l.
      * exists true. rewrite lookup_union_r by done.
        rewrite chain_lookup, decide_True; [done|]. split.
        -- intros ->. destruct Hwf as [[w Hw] _]. congruence.
        -- by apply suffix_cons_l in Hs.
Qed.

(** What one successful [makedirs] adds does not change what another can
    do. *)
Lemma creatable_union_chain fs p q :
  wf fs → creatable fs p = true →
  creatable (fs ∪ chain p) q = creatable fs q.
Proof.
  intros Hwf Hc. induction q as [|c q IH]; [done|]. simpl.
  destruct (fs !! (c :: q)) as [x|] eqn:Hq.
  - by rewrite (lookup_union_Some_l _ _ _ _ Hq).
  - rewrite (lookup_union_r _ _ _ Hq), chain_lookup.
    destruct (decide (c :: q ≠ [] ∧ c :: q `suffix_of` p)) as [[_ Hs]|Hns].
    + pose proof (creatable_suffix fs p _ Hwf Hc Hs) as Hcq.
      simpl in Hcq. by rewrite Hq in Hcq.
    + rewrite IH. f_equal.
      destruct (fs !! q) as [y|] eqn:Hy.
      * by rewrite (lookup_union_Some_l _ _ _ _ Hy).
      * rewrite (lookup_union_r _ _ _ Hy), chain_lookup.
        by destruct (decide _).
Qed.

End Makedirs.

(** ** The creation loop *)

Section Loop.

Implicit Types (fs : FS) (p q : path) (log : list event) (d : string)
  (paths : list string).

Lemma is_dir_union fs (m : FS) p : is_dir fs p → is_dir (fs ∪ m) p.
Proof. intros [w Hw]. exists w. by apply lookup_union_Some_l. Qed.

Lemma is_dir_union_chain fs p :
  wf fs → creatable fs p = true → is_dir (fs ∪ chain p) p.
Proof.
  intros Hwf Hc. destruct p as [|c p].
  - apply is_dir_union, Hwf.
  - simpl in Hc. destruct (fs !! (c :: p)) as [[|w]|] eqn:Hp; [done| |].
    + apply is_dir_union. by exists w.
    + exists true. rewrite lookup_union_r by done. apply chain_lookup_self.
Qed.

Lemma create_one_ok fs log d :
  wf fs → creatable fs (join_cwd d) = true →
  create_one d (World fs log) =
  (World (fs ∪ chain (join_cwd d)) (log ++ [progress d]), inr tt).
Proof.
  intros Hwf Hc. unfold create_one, bind.
  by rewrite (makedirs_ok fs log _ Hwf Hc).
Qed.

Lemma create_one_fail fs log d :
  wf fs → creatable fs (join_cwd d) = false →
  ∃ e, create_one d (World fs log) = (World fs log, inl (OSError e)).
Proof.
  intros Hwf Hc. destruct (makedirs_fail fs log _ Hwf Hc) as [e He].
  exists e. unfold create_one, bind. by rewrite He.
Qed.

Lemma all_creatable_union_chain fs p paths :
  wf fs → creatable fs p = true →
  all_creatable (fs ∪ chain p) paths ↔ all_creatable fs paths.
Proof.
  intros Hwf Hc. unfold all_creatable. rewrite !Forall_forall.
  split; intros H d Hd; specialize (H d Hd);
    by rewrite creatable_union_chain in *.
Qed.

Lemma closure_cons d paths :
  closure (d :: paths) = chain (join_cwd d) ∪ closure paths.
Proof. done. Qed.

(** A run of the loop: the entries up to the first one that cannot be
    created are created and reported, in order; the loop ends there with
    that entry's [OSError], or after the last entry. *)
Lemma ensure_structure_run paths fs log :
  wf fs →
  ∃ l1 l2 r,
    paths = l1 ++ l2 ∧ all_creatable fs l1 ∧
    ensure_structure paths (World fs log) =
      (World (fs ∪ closure l1) (log ++ map progress l1), r) ∧
    ((l2 = [] ∧ r = inr tt) ∨
     (∃ d l2' e, l2 = d :: l2' ∧ creatable fs (join_cwd d) = false ∧
                 r = inl (OSError e))).
Proof.
  revert fs log. induction paths as [|d rest IH]; intros fs log Hwf.
  - exists [], [], (inr tt). split; [done|]. split; [constructor|].
    split; [|by left]. simpl.
    by rewrite (right_id_L ∅ (∪)), app_nil_r.
  - destruct (creatable fs (join_cwd d)) eqn:Hc.
    + pose proof (wf_union_chain fs _ Hwf Hc) as Hwf1.
      destruct (IH _ (log ++ [progress d]) Hwf1)
        as (l1 & l2 & r & -> & Hall & Hrun & Hend).
      exists (d :: l1), l2, r. split; [done|]. split.
      { constructor; [done|]. by apply (all_creatable_union_chain fs _ l1 Hwf Hc). }
      split.
      { unfold ensure_structure in *. cbn [for_each]. unfold bind at 1.
        rewrite (create_one_ok fs log d Hwf Hc), Hrun.
        by rewrite closure_cons, (assoc_L (∪)), <- app_assoc. }
      destruct Hend as [?|(d' & l2' & e & -> & Hd' & ->)]; [by left|].
      right. exists d', l2', e. split; [done|]. split; [|done].
      by rewrite creatable_union_chain in Hd'.
    + destruct (create_one_fail fs log d Hwf Hc) as [e He].
      exists [], (d :: rest), (inl (OSError e)).
      split; [done|]. split; [constructor|]. split.
      { unfold ensure_structure. simpl. unfold bind at 1. rewrite He. simpl.
        by rewrite (right_id_L ∅ (∪)), app_nil_r. }
      right. by exists d, rest, e.
Qed.

Lemma wf_union_closure fs paths :
  wf fs → all_creatable fs paths → wf (fs ∪ closure paths).
Proof.
  revert fs. induction paths as [|d rest IH]; intros fs Hwf Hall.
  - simpl. by rewrite (right_id_L ∅ (∪)).
  - apply Forall_cons in Hall as [Hd Hrest].
    rewrite closure_cons, (assoc_L (∪)). apply IH.
    + by apply wf_union_chain.
    + by apply all_creatable_union_chain.
Qed.

Lemma is_dir_union_closure fs paths d :
  wf fs → all_creatable fs paths → d ∈ paths →
  is_dir (fs ∪ closure paths) (join_cwd d).
Proof.
  revert fs. induction paths as [|d' rest IH]; intros fs Hwf Hall Hin.
  - by apply elem_of_nil in Hin.
  - apply Forall_cons in Hall as [Hd Hrest].
    rewrite closure_cons, (assoc_L (∪)).
    apply elem_of_cons in Hin as [->|Hin].
    + by apply is_dir_union, is_dir_union_chain.
    + apply IH; [by apply wf_union_chain| |done].
      by apply all_creatable_union_chain.
Qed.

(** The loop succeeds exactly when every entry can be created, and then
    adds the whole closure and prints every progress line. *)
Lemma ensure_structure_ok paths fs log :
  wf fs → all_creatable fs paths →
  ensure_structure paths (World fs log) =
  (World (fs ∪ closure paths) (log ++ map progress paths), inr tt).
Proof.
  intros Hwf Hall.
  destruct (ensure_structure_run paths fs log Hwf)
    as (l1 & l2 & r & -> & _ & Hrun & [[-> ->]|(d & l2' & e & -> & Hd & _)]).
  - by rewrite app_nil_r in *.
  - apply Forall_app in Hall as [_ Hall].
    apply Forall_cons in Hall as [Hd' _]. congruence.
Qed.

Lemma ensure_structure_inv_ok paths fs log w :
  wf fs → ensure_structure paths (World fs log) = (w, inr tt) →
  all_creatable fs paths ∧
  w = World (fs ∪ closure paths) (log ++ map progress paths).
Proof.
  intros Hwf Hrun.
  destruct (ensure_structure_run paths fs log Hwf)
    as (l1 & l2 & r & -> & Hall & Hrun' & [[-> ->]|(d & l2' & e & -> & Hd & ->)]).
  - rewrite app_nil_r in *. split; [done|]. congruence.
  - congruence.
Qed.

End Loop.

Lemma wfb_wf (fs : FS) : wfb fs = true → wf fs.
Proof.
  unfold wfb, wf, is_dir. intros [Hroot Hall]%andb_prop. split.
  - destruct (fs !! []) as [[|w]|]; try done. by exists w.
  - intros c p [x Hx]. rewrite forallb_forall in Hall.
    assert (In (c :: p, x) (map_to_list fs)) as Hin.
    { apply list_elem_of_In. by apply elem_of_map_to_list. }
    specialize (Hall _ Hin). simpl in Hall.
    destruct (fs !! p) as [[|w]|]; try done. by exists w.
Qed.

(** ** The script as a whole *)

Section Run.

Variable installer : list string → FS → child.
Variable exc_str : exn → string.

Implicit Types (fs : FS) (log : list event) (paths : list string).

Lemma install_dependencies_run cmd fs log :
  install_dependencies installer exc_str cmd (World fs log) =
  match installer cmd fs with
  | NotLaunched e => (World fs (log ++ [Exec cmd]), inl (OSError e))
  | Exited fs' out rc =>
      let log' := (log ++ [Exec cmd]) ++ map ChildOutput out in
      if Z.eqb rc 0
      then (World fs' (log' ++ [Print (newline +:+ "Project setup complete!")]),
            inr tt)
      else (World fs'
              (log' ++ [Print ("Error installing dependencies: " +:+
                               exc_str (CalledProcessError rc cmd))]),
            inl (SystemExit 1))
  end.
Proof.
  unfold install_dependencies, try_except, bind, subprocess_run; simpl.
  destruct (installer cmd fs) as [e|fs' out rc]; [done|].
  by destruct (Z.eqb rc 0).
Qed.

(** The script runs the loop after the banner, and reaches the installer
    only when the loop has returned. *)
Lemma script_run paths fs0 :
  script installer exc_str paths (World fs0 []) =
  match ensure_structure paths (World fs0 banner) with
  | (w1, inr _) =>
      install_dependencies installer exc_str npm_install
        (World (w_fs w1) (w_log w1 ++ handover))
  | (w1, inl e) => (w1, inl e)
  end.
Proof.
  unfold script, bind at 1 2. simpl.
  change [Print "Creating project structure..."] with banner.
  destruct (ensure_structure paths (World fs0 banner)) as [w1 [e|[]]]; [done|].
  unfold bind, print. simpl. by rewrite <- app_assoc.
Qed.

(** Every run of the script: either the loop stops at the first entry that
    cannot be created and its [OSError] ends the process, or the loop
    creates everything and the installer decides the end. *)
Lemma python_script_cases paths fs0 :
  wf fs0 →
  let o := python (script installer exc_str paths) fs0 in
  (∃ l1 d l2 e,
      paths = l1 ++ d :: l2 ∧ all_creatable fs0 l1 ∧
      creatable fs0 (join_cwd d) = false ∧
      ensure_structure paths (World fs0 banner) =
        (World (fs0 ∪ closure l1) (banner ++ map progress l1),
         inl (OSError e)) ∧
      o = Outcome (World (fs0 ∪ closure l1) (banner ++ map progress l1))
            1 (Some (OSError e)))
  ∨
  (all_creatable fs0 paths ∧
   ensure_structure paths (World fs0 banner) =
     (World (fs0 ∪ closure paths) (banner ++ map progress paths), inr tt) ∧
   let fs1 := fs0 ∪ closure paths in
   let log1 := ((banner ++ map progress paths) ++ handover) ++ [Exec npm_install] in
   match installer npm_install fs1 with
   | NotLaunched e => o = Outcome (World fs1 log1) 1 (Some (OSError e))
   | Exited fs' out rc =>
       if Z.eqb rc 0
       then o = Outcome
                  (World fs' ((log1 ++ map ChildOutput out) ++
                              [Print (newline +:+ "Project setup complete!")]))
                  0 None
       else o = Outcome
                  (World fs' ((log1 ++ map ChildOutput out) ++
                              [Print ("Error installing dependencies: " +:+
                                 exc_str (CalledProcessError rc npm_install))]))
                  1 None
   end).
Proof.
  intros Hwf o. subst o. unfold python. rewrite script_run.
  destruct (ensure_structure_run paths fs0 banner Hwf)
    as (l1 & l2 & r & -> & Hall & Hrun &
        [[-> ->]|(d & l2' & e & -> & Hd & ->)]).
  - right. rewrite app_nil_r in *. rewrite Hrun. split; [done|]. split; [done|].
    simpl. rewrite install_dependencies_run.
    destruct (installer npm_install (fs0 ∪ closure l1)) as [e|fs' out rc]; [done|].
    by destruct (Z.eqb rc 0).
  - left. exists l1, d, l2', e. by rewrite Hrun.
Qed.

End Run.

(** ** What a list of paths asks for *)

Lemma closure_lookup_Some paths q x :
  closure paths !! q = Some x ↔
  x = Dir true ∧ q ≠ [] ∧ ∃ d, d ∈ paths ∧ q `suffix_of` join_cwd d.
Proof.
  induction paths as [|d rest IH].
  - simpl. rewrite lookup_empty. split; [done|].
    intros (_ & _ & d & Hd & _). by apply elem_of_nil in Hd.
  - rewrite closure_cons, lookup_union_Some_raw, IH. split.
    + intros [Hc|[_ (-> & Hne & d' & Hd' & Hs)]].
      * apply chain_lookup_Some in Hc as (-> & Hne & Hs).
        split; [done|]. split; [done|]. exists d. split; [left|done].
      * split; [done|]. split; [done|]. exists d'. split; [by right|done].
    + intros (-> & Hne & d' & Hd' & Hs).
      destruct (chain (join_cwd d) !! q) as [y|] eqn:Hc.
      * left. by apply chain_lookup_Some in Hc as (-> & _).
      * right. split; [done|]. split; [done|]. split; [done|].
        apply elem_of_cons in Hd' as [->|Hd'].
        -- rewrite chain_lookup, decide_True in Hc; done.
        -- by exists d'.
Qed.



Lemma wf_empty_base : wf empty_base.
Proof. by apply wfb_wf. Qed.

Lemma empty_base_closure_lookup paths q x :
  (empty_base ∪ closure paths) !! q = Some x ↔
  x = Dir true ∧ (q = [] ∨ ∃ d, d ∈ paths ∧ q `suffix_of` join_cwd d).
Proof.
  unfold empty_base.
  rewrite lookup_union_Some_raw, lookup_singleton_Some, lookup_singleton_None,
    closure_lookup_Some.
  split.
  - intros [[<- <-]|[Hne (-> & _ & Hd)]]; [by split; [|left]|by split; [|right]].
  - intros [-> [->|Hd]]; [by left|].
    destruct (decide (q = [])) as [->|Hne]; [by left|]. right.
    split; [by intros <-|]. by split; [|split].
Qed.

(** The components of the listed paths are plain names. *)
Lemma dirs_plain_names :
  Forall (λ d, Forall (λ c, c ≠ "" ∧ c ≠ "." ∧ c ≠ "..") (join_cwd d)) dirs.
Proof. repeat constructor; done. Qed.

(** The tree the loop builds in an empty base directory: 28 entries, which
    are the base, eleven implied ancestors and the sixteen listed
    directories. *)
Example scaffold_listing :
  let listing :=
    [ ""; "src"; "src/app"; "src/app/api"; "src/app/api/ai"; "src/app/blog";
      "src/components"; "src/lib"; "content"; "tests"; ".github"; "public" ]
    ++ dirs in
  size (empty_base ∪ closure dirs) = 28%nat ∧
  NoDup (map join_cwd listing) ∧
  Forall (λ d, (empty_base ∪ closure dirs) !! join_cwd d = Some (Dir true))
    listing.
Proof.
  intros listing. subst listing.
  split; [vm_compute; reflexivity|]. split.
  - apply (bool_decide_unpack _). vm_compute. exact I.
  - repeat (constructor; [vm_compute; reflexivity|]). constructor.
Qed.

Lemma all_creatable_empty_base : all_creatable empty_base dirs.
Proof. repeat constructor. Qed.

Lemma scaffold_empty_base log :
  ensure_structure dirs (World empty_base log) =
  (World (empty_base ∪ closure dirs) (log ++ map progress dirs), inr tt).
Proof.
  apply ensure_structure_ok;
    [exact wf_empty_base|exact all_creatable_empty_base].
Qed.

Lemma join_cwd_dirs : map join_cwd dirs = listed_paths.
Proof. reflexivity. Qed.

(** The entries of the tree built in an empty base directory, path by
    path. *)
Lemma scaffold_entries (q : path) :
  is_Some ((empty_base ∪ closure dirs) !! q) ↔ q ∈ scaffold_paths.
Proof.
  assert (Forall (λ p, (empty_base ∪ closure dirs) !! p = Some (Dir true))
            scaffold_paths) as Hall.
  { unfold scaffold_paths, implied_paths, listed_paths.
    repeat (constructor; [vm_compute; reflexivity|]). constructor. }
  assert (NoDup scaffold_paths) as Hnd.
  { apply (bool_decide_unpack _). vm_compute. exact I. }
  assert (size (dom (empty_base ∪ closure dirs)) = 28%nat) as Hsize
    by (rewrite size_dom; vm_compute; reflexivity).
  assert (list_to_set scaffold_paths = dom (empty_base ∪ closure dirs)) as Hdom.
  { apply set_subseteq_size_eq.
    - intros p Hp. apply elem_of_list_to_set in Hp. apply elem_of_dom.
      rewrite Forall_forall in Hall. by rewrite (Hall p Hp).
    - rewrite Hsize, size_list_to_set by done. reflexivity. }
  by rewrite <- elem_of_dom, <- Hdom, elem_of_list_to_set.
Qed.

(** ** Properties of the script *)

#[local] Arguments closure : simpl never.

(** C1, as the code has it.  In a run where the creation of the
    directories and the installer both succeed (exit status 0), the loop
    has returned leaving the tree [fs0 ∪ closure dirs], in which each of
    the 16 listed paths is a directory; the installer was run on that tree
    and the final tree is the one it left, so the listed directories are
    there afterwards whenever the installer removes none.  From an empty
    base directory the tree the script has built when it launches the
    installer holds exactly the base, the 16 directories and their
    ancestors, all of them directories: the script itself creates no file,
    and whatever else the final tree holds comes from the installer. *)
Theorem C1_completeness installer exc_str fs0 :
  wf fs0 →
  status (python (main installer exc_str) fs0) = 0 →
  let o := python (main installer exc_str) fs0 in
  let built := fs0 ∪ closure dirs in
  ensure_structure dirs (World fs0 banner) =
    (World built (banner ++ map progress dirs), inr tt) ∧
  (∀ d, d ∈ dirs → is_dir built (join_cwd d)) ∧
  (∃ out, installer npm_install built = Exited (w_fs (final o)) out 0) ∧
  (keeps_directories installer →
   ∀ d, d ∈ dirs → is_dir (w_fs (final o)) (join_cwd d)) ∧
  (fs0 = empty_base →
   ∀ q x, built !! q = Some x ↔
          x = Dir true ∧
          (q = [] ∨ ∃ d, d ∈ dirs ∧ q `suffix_of` join_cwd d)) ∧
  Forall (is_dir built) listed_paths ∧
  (fs0 = empty_base → ∀ q, is_Some (built !! q) ↔ q ∈ scaffold_paths).
Proof.
  intros Hwf Hst o built. subst o built. unfold main in *.
  pose proof (python_script_cases installer exc_str dirs fs0 Hwf) as Hcases.
  cbv zeta in Hcases.
  destruct Hcases as [(l1 & d & l2 & e & _ & _ & _ & _ & Ho)|(Hall & Hloop & Hinst)].
  { rewrite Ho in Hst. done. }
  assert (∀ d, d ∈ dirs → is_dir (fs0 ∪ closure dirs) (join_cwd d)) as Hdirs.
  { intros d Hd. by apply is_dir_union_closure. }
  split; [done|]. split; [done|].
  destruct (installer npm_install (fs0 ∪ closure dirs)) as [e|fs' out rc] eqn:Hrun.
  { rewrite Hinst in Hst. done. }
  destruct (Z.eqb_spec rc 0) as [->|Hrc]; rewrite Hinst in *; [|done].
  simpl. split; [by exists out|]. split; [|split; [|split]].
  - intros Hkeep d Hd. eapply Hkeep; [done|]. by apply Hdirs.
  - intros ->. apply empty_base_closure_lookup.
  - rewrite <- join_cwd_dirs. apply Forall_forall. intros q Hq.
    apply list_elem_of_fmap in Hq as (d & -> & Hd). by apply Hdirs.
  - intros -> q. apply scaffold_entries.
Qed.

Lemma C1_completeness_witness :
  wf empty_base ∧
  status (python (main (exits_with 0) str_status_2) empty_base) = 0 ∧
  ∀ d, d ∈ dirs →
       is_dir (w_fs (final (python (main (exits_with 0) str_status_2)
                              empty_base))) (join_cwd d).
Proof.
  split; [exact wf_empty_base|]. split; [vm_compute; reflexivity|].
  apply (C1_completeness (exits_with 0) str_status_2 empty_base
           wf_empty_base eq_refl).
  intros cmd fs fs' out rc [= <- _ _]. done.
Defined.

(** C1 as stated fails, since the final tree is the one the installer
    leaves: with an installer that writes a lock file the run ends with
    status 0 and a file in the base directory, and with one that removes
    [public/images] it ends with status 0 and a listed directory gone. *)
Lemma C1_counterexample :
  (status (python (main writes_lockfile str_status_2) empty_base) = 0 ∧
   ¬ scaffold_only
       (w_fs (final (python (main writes_lockfile str_status_2) empty_base))))
  ∧
  (status (python (main removes_images str_status_2) empty_base) = 0 ∧
   ¬ all_listed_present
       (w_fs (final (python (main removes_images str_status_2) empty_base)))).
Proof.
  split; (split; [vm_compute; reflexivity|]).
  - intros Hclaim.
    destruct (Hclaim ["package-lock.json"] File) as [[w Hw] _];
      [vm_compute; reflexivity|discriminate].
  - intros Hclaim. destruct (Hclaim "public/images") as [w Hw].
    + unfold dirs. repeat constructor.
    + vm_compute in Hw. discriminate.
Qed.

(** C2. When the loop has created the directories and the installer exits
    with a nonzero status, the script prints the error report as its last
    line and ends through [exit(1)]: status 1, no traceback.  It touches
    the file system no more: the final tree is the one the installer left,
    so the listed directories, which the loop had all created, are still
    there whenever the installer removes none. *)
Theorem C2_install_failure installer exc_str fs0 w1 fs' out rc :
  wf fs0 →
  ensure_structure dirs (World fs0 banner) = (w1, inr tt) →
  installer npm_install (w_fs w1) = Exited fs' out rc →
  rc ≠ 0 →
  let o := python (main installer exc_str) fs0 in
  status o = 1 ∧ traceback o = None ∧
  w_log (final o) =
    (((w_log w1 ++ handover) ++ [Exec npm_install]) ++ map ChildOutput out) ++
    [Print ("Error installing dependencies: " +:+
            exc_str (CalledProcessError rc npm_install))] ∧
  w_fs (final o) = fs' ∧
  (∀ d, d ∈ dirs → is_dir (w_fs w1) (join_cwd d)) ∧
  (keeps_directories installer →
   ∀ d, d ∈ dirs → is_dir (w_fs (final o)) (join_cwd d)).
Proof.
  intros Hwf Hloop Hinst Hrc o. subst o.
  assert (∀ d, d ∈ dirs → is_dir (w_fs w1) (join_cwd d)) as Hdirs.
  { apply ensure_structure_inv_ok in Hloop as [Hall ->]; [|done].
    intros d Hd. by apply is_dir_union_closure. }
  unfold python, main. rewrite script_run, Hloop, install_dependencies_run, Hinst.
  destruct (Z.eqb_spec rc 0) as [->|_]; [done|]. cbn.
  repeat split; try done.
  intros Hkeep d Hd. eapply Hkeep; [done|]. by apply Hdirs.
Qed.

Lemma C2_install_failure_witness :
  wf empty_base ∧
  ensure_structure dirs (World empty_base banner) = (scaffolded, inr tt) ∧
  exits_with 2 npm_install (w_fs scaffolded) = Exited (w_fs scaffolded) [] 2 ∧
  2 ≠ 0 ∧
  status (python (main (exits_with 2) str_status_2) empty_base) = 1 ∧
  w_fs (final (python (main (exits_with 2) str_status_2) empty_base)) =
    w_fs scaffolded.
Proof.
  assert (2 ≠ 0) as Hrc by lia.
  pose proof (C2_install_failure (exits_with 2) str_status_2 empty_base
                scaffolded (w_fs scaffolded) [] 2 wf_empty_base
                (scaffold_empty_base banner) eq_refl Hrc) as H.
  cbv zeta in H. destruct H as (Hst & _ & _ & Hfs & _).
  exact (conj wf_empty_base (conj (scaffold_empty_base banner)
           (conj eq_refl (conj Hrc (conj Hst Hfs))))).
Defined.

Lemma union_closure_id (fs : FS) (paths : list string) :
  wf fs → (∀ d, d ∈ paths → is_dir fs (join_cwd d)) → fs ∪ closure paths = fs.
Proof.
  intros Hwf. induction paths as [|d rest IH]; intros Hdirs.
  - unfold closure. simpl. by rewrite (right_id_L ∅ (∪)).
  - rewrite closure_cons, (assoc_L (∪)), wf_union_chain_id.
    + apply IH. intros d' Hd'. apply Hdirs. by right.
    + done.
    + destruct (Hdirs d) as [w Hw]; [left|]. by rewrite Hw.
Qed.

(** C3. Once the loop has run to its end on a base directory, running it
    again on the tree it left raises nothing and leaves that tree as it is:
    the directories it finds there are no error. *)
Theorem C3_idempotent fs0 log0 w1 log1 :
  wf fs0 →
  ensure_structure dirs (World fs0 log0) = (w1, inr tt) →
  ensure_structure dirs (World (w_fs w1) log1) =
    (World (w_fs w1) (log1 ++ map progress dirs), inr tt).
Proof.
  intros Hwf Hloop.
  apply ensure_structure_inv_ok in Hloop as [Hall ->]; [|done]. cbn [w_fs].
  rewrite ensure_structure_ok.
  - rewrite union_closure_id; [done|by apply wf_union_closure|].
    intros d Hd. by apply is_dir_union_closure.
  - by apply wf_union_closure.
  - apply Forall_forall. intros d Hd. apply creatable_dir.
    + by apply wf_union_closure.
    + by apply is_dir_union_closure.
Qed.

Lemma C3_idempotent_witness :
  wf empty_base ∧
  ensure_structure dirs (World empty_base banner) = (scaffolded, inr tt) ∧
  ensure_structure dirs (World (w_fs scaffolded) []) =
    (World (w_fs scaffolded) ([] ++ map progress dirs), inr tt).
Proof.
  exact (conj wf_empty_base (conj (scaffold_empty_base banner)
           (C3_idempotent empty_base banner scaffolded []
              wf_empty_base (scaffold_empty_base banner)))).
Defined.

(** Nothing in a tree lies below a file. *)
Lemma wf_below_file (fs : FS) (q p : path) :
  wf fs → fs !! q = Some File → q `suffix_of` p → p ≠ q → fs !! p = None.
Proof.
  intros Hwf Hq Hs Hne. destruct (fs !! p) as [x|] eqn:Hp; [|done].
  destruct (wf_suffix fs p q Hwf) as [w Hw]; [by rewrite Hp|done|done|].
  congruence.
Qed.

(** C4. With a regular file at a listed path or at one of its ancestors,
    the loop ends with an [OSError], which ends the process with a
    traceback; the file is still there and nothing exists below it. *)
Theorem C4_collision installer exc_str fs0 q d :
  wf fs0 →
  fs0 !! q = Some File →
  d ∈ dirs →
  q `suffix_of` join_cwd d →
  ∃ w1 e,
    ensure_structure dirs (World fs0 banner) = (w1, inl (OSError e)) ∧
    python (main installer exc_str) fs0 = Outcome w1 1 (Some (OSError e)) ∧
    w_fs w1 !! q = Some File ∧
    ∀ p, q `suffix_of` p → p ≠ q → w_fs w1 !! p = None.
Proof.
  intros Hwf Hq Hd Hs.
  pose proof (python_script_cases installer exc_str dirs fs0 Hwf) as Hcases.
  cbv zeta in Hcases.
  destruct Hcases as [(l1 & d' & l2 & e & _ & Hall & _ & Hloop & Ho)|(Hall & _)].
  - exists (World (fs0 ∪ closure l1) (banner ++ map progress l1)), e.
    split; [done|]. split; [done|]. simpl.
    assert ((fs0 ∪ closure l1) !! q = Some File) as Hq'
      by by apply lookup_union_Some_l.
    split; [done|]. intros p Hp Hne.
    apply (wf_below_file _ q p); [|done..]. by apply wf_union_closure.
  - exfalso. unfold all_creatable in Hall. rewrite Forall_forall in Hall.
    by apply (creatable_no_file fs0 (join_cwd d) q Hwf (Hall d Hd) Hs).
Qed.

Lemma C4_collision_witness :
  wf (<[ ["src"] := File ]> empty_base) ∧
  (<[ ["src"] := File ]> empty_base) !! ["src"] = Some File ∧
  "src/app/api/ai/chat" ∈ dirs ∧
  ["src"] `suffix_of` join_cwd "src/app/api/ai/chat" ∧
  ∃ w1 e,
    python (main (exits_with 0) str_status_2) (<[ ["src"] := File ]> empty_base)
      = Outcome w1 1 (Some (OSError e)) ∧
    ∀ p, ["src"] `suffix_of` p → p ≠ ["src"] → w_fs w1 !! p = None.
Proof.
  assert (wf (<[ ["src"] := File ]> empty_base)) as Hwf by by apply wfb_wf.
  assert ((<[ ["src"] := File ]> empty_base) !! ["src"] = Some File) as Hq
    by apply lookup_insert_eq.
  assert ("src/app/api/ai/chat" ∈ dirs) as Hd by left.
  assert (["src"] `suffix_of` join_cwd "src/app/api/ai/chat") as Hs
    by by exists ["chat"; "ai"; "api"; "app"].
  destruct (C4_collision (exits_with 0) str_status_2 _ _ _ Hwf Hq Hd Hs)
    as (w1 & e & _ & Ho & _ & Hbelow).
  repeat (split; [assumption|]). by exists w1, e.
Defined.

Lemma no_exec_before_installer (l : list string) (argv : list string) :
  Exec argv ∉ banner ++ map progress l.
Proof.
  intros [Hin|Hin]%elem_of_app.
  - by apply list_elem_of_singleton in Hin.
  - by apply list_elem_of_fmap in Hin as (d & ? & _).
Qed.

(** C5. An exception that leaves the creation loop is an [OSError] and is
    caught nowhere: it ends the process with a traceback and a nonzero
    status, in the state the loop left, before any command is launched. *)
Theorem C5_creation_error_propagates installer exc_str fs0 w1 e :
  wf fs0 →
  ensure_structure dirs (World fs0 banner) = (w1, inl e) →
  let o := python (main installer exc_str) fs0 in
  (∃ k, e = OSError k) ∧
  traceback o = Some e ∧ status o = 1 ∧ status o ≠ 0 ∧ final o = w1 ∧
  ∀ argv, Exec argv ∉ w_log (final o).
Proof.
  intros Hwf Hloop o. subst o.
  pose proof (python_script_cases installer exc_str dirs fs0 Hwf) as Hcases.
  cbv zeta in Hcases.
  destruct Hcases as [(l1 & d' & l2 & k & _ & _ & _ & Hloop' & Ho)|(_ & Hloop' & _)];
    [|congruence].
  rewrite Hloop in Hloop'. injection Hloop' as -> ->.
  unfold main. rewrite Ho. simpl.
  split; [by exists k|]. repeat split; try done.
  intros argv. apply no_exec_before_installer.
Qed.

Lemma C5_creation_error_propagates_witness :
  wf {[ [] := Dir false ]} ∧
  ensure_structure dirs (World {[ [] := Dir false ]} banner) =
    (World {[ [] := Dir false ]} banner, inl (OSError PermissionError)) ∧
  traceback (python (main (exits_with 0) str_status_2) {[ [] := Dir false ]}) =
    Some (OSError PermissionError) ∧
  status (python (main (exits_with 0) str_status_2) {[ [] := Dir false ]}) = 1.
Proof.
  assert (wf {[ [] := Dir false ]}) as Hwf by by apply wfb_wf.
  assert (ensure_structure dirs (World {[ [] := Dir false ]} banner) =
    (World {[ [] := Dir false ]} banner, inl (OSError PermissionError))) as Hloop
    by (vm_compute; reflexivity).
  destruct (C5_creation_error_propagates (exits_with 0) str_status_2 _ _ _
              Hwf Hloop) as (_ & Htb & Hst & _).
  exact (conj Hwf (conj Hloop (conj Htb Hst))).
Defined.

Lemma no_exec_handover (argv : list string) : Exec argv ∉ handover.
Proof.
  unfold handover. intros Hin.
  by repeat apply elem_of_cons in Hin as [?|Hin];
    [..|apply elem_of_nil in Hin].
Qed.

Lemma no_exec_child_output (out : list string) (argv : list string) :
  Exec argv ∉ map ChildOutput out.
Proof. by intros (s & ? & _)%list_elem_of_fmap. Qed.

(** C6. The installer is launched only after the loop has returned: if a
    command is launched at all it is [npm install], launched once, after
    the complete output of the loop, whose 16 progress lines are all there
    and whose 16 directories all exist; and when the loop raises, the
    process ends there and no command is launched. *)
Theorem C6_phase_order installer exc_str fs0 :
  wf fs0 →
  let o := python (main installer exc_str) fs0 in
  (∀ argv, Exec argv ∈ w_log (final o) →
     argv = npm_install ∧
     ∃ w1 after,
       ensure_structure dirs (World fs0 banner) = (w1, inr tt) ∧
       w_log (final o) = (w_log w1 ++ handover) ++ Exec npm_install :: after ∧
       (∀ a, Exec a ∉ w_log w1 ++ handover) ∧
       (∀ a, Exec a ∉ after) ∧
       (∀ d, d ∈ dirs →
             progress d ∈ w_log w1 ∧ is_dir (w_fs w1) (join_cwd d))) ∧
  (∀ w1 e, ensure_structure dirs (World fs0 banner) = (w1, inl e) →
     final o = w1 ∧ traceback o = Some e ∧
     ∀ argv, Exec argv ∉ w_log (final o)).
Proof.
  intros Hwf o. subst o. unfold main.
  pose proof (python_script_cases installer exc_str dirs fs0 Hwf) as Hcases.
  cbv zeta in Hcases.
  destruct Hcases as [(l1 & d' & l2 & k & _ & _ & _ & Hloop & Ho)|(Hall & Hloop & Ho)].
  - rewrite Ho. cbn [final w_log w_fs traceback status]. split.
    + intros argv Hin. by apply no_exec_before_installer in Hin.
    + intros w1 e Hloop'. rewrite Hloop in Hloop'. injection Hloop' as <- <-.
      split; [done|]. split; [done|]. intros argv. apply no_exec_before_installer.
  - split; [|intros w1 e Hloop'; congruence].
    assert (∀ a, Exec a ∉ (banner ++ map progress dirs) ++ handover) as Hbefore.
    { intros a [Hin|Hin]%elem_of_app.
      - by apply no_exec_before_installer in Hin.
      - by apply no_exec_handover in Hin. }
    assert (∀ d, d ∈ dirs →
              progress d ∈ banner ++ map progress dirs ∧
              is_dir (fs0 ∪ closure dirs) (join_cwd d)) as Hdirs.
    { intros d Hd. split; [|by apply is_dir_union_closure].
      apply elem_of_app. right. by apply list_elem_of_fmap_2. }
    destruct (installer npm_install (fs0 ∪ closure dirs)) as [e|fs' out rc].
    + rewrite Ho. cbn [final w_log w_fs traceback status]. intros argv Hin.
      apply elem_of_app in Hin as [Hin|Hin]; [by apply Hbefore in Hin|].
      apply list_elem_of_singleton in Hin as [= ->]. split; [done|].
      exists (World (fs0 ∪ closure dirs) (banner ++ map progress dirs)), [].
      split; [done|]. split; [done|]. split; [done|]. split; [|done].
      intros a. apply not_elem_of_nil.
    + assert (∀ x, ∀ a, Exec a ∉ map ChildOutput out ++ [Print x]) as Hafter.
      { intros x a [Hin|Hin]%elem_of_app.
        - by apply no_exec_child_output in Hin.
        - by apply list_elem_of_singleton in Hin. }
      assert (∀ x argv,
        Exec argv ∈ ((((banner ++ map progress dirs) ++ handover) ++
                      [Exec npm_install]) ++ map ChildOutput out) ++ [Print x] →
        argv = npm_install) as Hargv.
      { intros x argv Hin. rewrite <- !app_assoc in Hin.
        rewrite (app_assoc banner), (app_assoc (banner ++ _)) in Hin.
        apply elem_of_app in Hin as [Hin|Hin]; [by apply Hbefore in Hin|].
        apply elem_of_cons in Hin as [[= ->]|Hin]; [done|].
        by apply Hafter in Hin. }
      destruct (Z.eqb rc 0); rewrite Ho; cbn [final w_log w_fs]; intros argv Hin;
        (split; [by eapply Hargv|]);
        eexists (World (fs0 ∪ closure dirs) (banner ++ map progress dirs)), _;
        (split; [done|]); cbn [w_log w_fs];
        (split; [by rewrite <- !app_assoc|]);
        (split; [done|]); (split; [apply Hafter|done]).
Qed.

Lemma C6_phase_order_witness :
  wf empty_base ∧
  ∀ argv,
    Exec argv ∈ w_log (final (python (main (exits_with 0) str_status_2)
                                empty_base)) →
    argv = npm_install.
Proof.
  split; [exact wf_empty_base|]. intros argv Hin.
  exact (proj1 (proj1 (C6_phase_order (exits_with 0) str_status_2 empty_base
                         wf_empty_base) argv Hin)).
Defined.



Lemma printed_child_output (out : list string) (rest : list event) :
  printed (map ChildOutput out ++ rest) = printed rest.
Proof. induction out as [|s out IH]; [done|]. simpl. apply IH. Qed.

(** C8, as the code has it.  When the installer exits with status 0 the
    script ends with status 0 and no traceback, after printing one line of
    its own behind the output of the installer: the success message. *)
Theorem C8_success_message installer exc_str fs0 w1 fs' out :
  ensure_structure dirs (World fs0 banner) = (w1, inr tt) →
  installer npm_install (w_fs w1) = Exited fs' out 0 →
  let o := python (main installer exc_str) fs0 in
  let after :=
    map ChildOutput out ++ [Print (newline +:+ "Project setup complete!")] in
  status o = 0 ∧ traceback o = None ∧
  w_log (final o) = (w_log w1 ++ handover) ++ Exec npm_install :: after ∧
  printed after = [Print (newline +:+ "Project setup complete!")].
Proof.
  intros Hloop Hinst o after. subst o after.
  unfold python, main. rewrite script_run, Hloop, install_dependencies_run, Hinst.
  cbn [Z.eqb final status traceback w_log].
  split; [done|]. split; [done|]. split.
  - by rewrite <- !app_assoc.
  - by rewrite printed_child_output.
Qed.

Lemma C8_success_message_witness :
  ensure_structure dirs (World empty_base banner) = (scaffolded, inr tt) ∧
  exits_with 0 npm_install (w_fs scaffolded) = Exited (w_fs scaffolded) [] 0 ∧
  status (python (main (exits_with 0) str_status_2) empty_base) = 0 ∧
  w_log (final (python (main (exits_with 0) str_status_2) empty_base)) =
    (w_log scaffolded ++ handover) ++
    [Exec npm_install; Print (newline +:+ "Project setup complete!")].
Proof.
  destruct (C8_success_message (exits_with 0) str_status_2 empty_base
              scaffolded (w_fs scaffolded) []
              (scaffold_empty_base banner) eq_refl) as (Hst & _ & Hlog & _).
  exact (conj (scaffold_empty_base banner) (conj eq_refl (conj Hst Hlog))).
Defined.

(** C8 as stated fails: with an installer that exits with status 0 the
    script still prints a line after launching it. *)
Lemma C8_counterexample :
  exits_with 0 npm_install (w_fs scaffolded) = Exited (w_fs scaffolded) [] 0 ∧
  status (python (main (exits_with 0) str_status_2) empty_base) = 0 ∧
  ¬ silent_after_installer
      (w_log (final (python (main (exits_with 0) str_status_2) empty_base))).
Proof.
  split; [done|]. split; [by vm_compute|]. intros Hsilent.
  specialize (Hsilent (w_log scaffolded ++ handover) npm_install
                [Print (newline +:+ "Project setup complete!")]).
  discriminate Hsilent. by vm_compute.
Qed.



Lemma no_error_report_before_installer (s : string) :
  Print ("Error installing dependencies: " +:+ s) ∉
    ((banner ++ map progress dirs) ++ handover) ++ [Exec npm_install].
Proof.
  rewrite !elem_of_app. intros [[[Hin|Hin]|Hin]|Hin].
  - by apply list_elem_of_singleton in Hin.
  - by apply list_elem_of_fmap in Hin as (d & ? & _).
  - unfold handover in Hin.
    by repeat apply elem_of_cons in Hin as [?|Hin]; [..|apply elem_of_nil in Hin].
  - by apply list_elem_of_singleton in Hin.
Qed.

(** C10. When the installer cannot be launched, the error of the launch is
    an [OSError], not a [CalledProcessError]: the [except] clause does not
    apply, the exception reaches the top level as it is (no [exit(1)]) and
    ends the process with a traceback; the launch attempt is the last event
    and no install-error report is printed. *)
Theorem C10_installer_not_found installer exc_str fs0 w1 e :
  wf fs0 →
  ensure_structure dirs (World fs0 banner) = (w1, inr tt) →
  installer npm_install (w_fs w1) = NotLaunched e →
  let o := python (main installer exc_str) fs0 in
  main installer exc_str (World fs0 []) = (final o, inl (OSError e)) ∧
  traceback o = Some (OSError e) ∧
  final o = World (w_fs w1) ((w_log w1 ++ handover) ++ [Exec npm_install]) ∧
  ∀ s, Print ("Error installing dependencies: " +:+ s) ∉ w_log (final o).
Proof.
  intros Hwf Hloop Hinst o. subst o.
  assert (main installer exc_str (World fs0 []) =
          (World (w_fs w1) ((w_log w1 ++ handover) ++ [Exec npm_install]),
           inl (OSError e))) as Hmain.
  { unfold main. by rewrite script_run, Hloop, install_dependencies_run, Hinst. }
  unfold python. rewrite Hmain. cbn [final traceback].
  split; [done|]. split; [done|]. split; [done|].
  apply ensure_structure_inv_ok in Hloop as [_ ->]; [|done]. cbn [w_log].
  apply no_error_report_before_installer.
Qed.

Lemma C10_installer_not_found_witness :
  wf empty_base ∧
  ensure_structure dirs (World empty_base banner) = (scaffolded, inr tt) ∧
  not_installed npm_install (w_fs scaffolded) = NotLaunched FileNotFoundError ∧
  traceback (python (main not_installed str_status_2) empty_base) =
    Some (OSError FileNotFoundError).
Proof.
  destruct (C10_installer_not_found not_installed str_status_2 empty_base
              scaffolded FileNotFoundError wf_empty_base
              (scaffold_empty_base banner) eq_refl) as (_ & Htb & _).
  exact (conj wf_empty_base (conj (scaffold_empty_base banner)
           (conj eq_refl Htb))).
Defined.

(** ** Further facts about the creation loop *)

Section LoopFacts.

Implicit Types (fs : FS) (p q : path) (log : list event) (d : string)
  (paths : list string).

Lemma creatable_union_closure fs paths q :
  wf fs → all_creatable fs paths →
  creatable (fs ∪ closure paths) q = creatable fs q.
Proof.
  revert fs. induction paths as [|d rest IH]; intros fs Hwf Hall.
  - unfold closure. simpl. by rewrite (right_id_L ∅ (∪)).
  - apply Forall_cons in Hall as [Hd Hrest].
    rewrite closure_cons, (assoc_L (∪)), IH.
    + by apply creatable_union_chain.
    + by apply wf_union_chain.
    + by apply all_creatable_union_chain.
Qed.

(** A failing [makedirs] raises [makedirs_err] and changes nothing. *)
Lemma makedirs_fail_err fs log p :
  wf fs → creatable fs p = false →
  makedirs p true (World fs log) =
  (World fs log, inl (OSError (makedirs_err fs p))).
Proof.
  intros Hwf. induction p as [|c p IH]; [done|]. intros Hc.
  pose proof (proj2 Hwf c p) as Hpar.
  pose proof Hc as Hc'. simpl in Hc'.
  destruct (fs !! p) as [[|wr]|] eqn:Hp.
  - destruct (fs !! (c :: p)) as [x|] eqn:Hcp.
    { destruct Hpar as [w Hw]; [done|congruence]. }
    simpl. rewrite Hp. by run_fs.
  - destruct (fs !! (c :: p)) as [[|wr']|] eqn:Hcp; [|done|].
    + simpl. rewrite Hp, Hcp. by run_fs.
    + rewrite (creatable_dir fs p Hwf) in Hc' by (by exists wr).
      simpl in Hc'. subst wr. simpl. rewrite Hp, Hcp. by run_fs.
  - destruct (fs !! (c :: p)) as [x|] eqn:Hcp.
    { destruct Hpar as [w Hw]; [done|congruence]. }
    rewrite andb_true_r in Hc'. specialize (IH Hc').
    pose proof (makedirs_spec fs log p Hwf) as Hspec. rewrite Hc' in Hspec.
    destruct Hspec as (e & He & Hfile). rewrite IH in He.
    injection He as He. simpl. rewrite Hp. run_fs. rewrite IH.
    destruct (makedirs_err fs p); try done.
    specialize (Hfile (eq_sym He)). congruence.
Qed.

End LoopFacts.

Section LoopErrors.

Implicit Types (fs : FS) (p q : path) (log : list event) (d : string)
  (paths : list string).

(** What a successful [makedirs] adds does not change the error of a path
    that cannot be created. *)
Lemma makedirs_err_union_chain fs p0 p :
  wf fs → creatable fs p0 = true → creatable fs p = false →
  makedirs_err (fs ∪ chain p0) p = makedirs_err fs p.
Proof.
  intros Hwf Hc0. induction p as [|c p IH]; [done|]. intros Hc.
  pose proof (proj2 Hwf c p) as Hpar. simpl in Hc. simpl.
  destruct (fs !! p) as [[|wr]|] eqn:Hp.
  - by rewrite (lookup_union_Some_l _ _ _ _ Hp).
  - rewrite (lookup_union_Some_l _ _ _ _ Hp).
    destruct (fs !! (c :: p)) as [x|] eqn:Hcp.
    + by rewrite (lookup_union_Some_l _ _ _ _ Hcp).
    + rewrite (lookup_union_r _ _ _ Hcp).
      destruct (chain p0 !! (c :: p)) as [y|] eqn:Hch; [|done].
      apply chain_lookup_Some in Hch as (_ & _ & Hs).
      pose proof (creatable_suffix fs p0 _ Hwf Hc0 Hs) as Hc'.
      simpl in Hc'. rewrite Hcp, Hp in Hc'. rewrite Hc' in Hc. done.
  - destruct (fs !! (c :: p)) as [x|] eqn:Hcp.
    { destruct Hpar as [w Hw]; [done|congruence]. }
    rewrite andb_true_r in Hc. rewrite (lookup_union_r _ _ _ Hp).
    destruct (chain p0 !! p) as [y|] eqn:Hch.
    + apply chain_lookup_Some in Hch as (_ & _ & Hs).
      pose proof (creatable_suffix fs p0 _ Hwf Hc0 Hs). congruence.
    + by apply IH.
Qed.

(** Where the loop stops: at the first entry that cannot be created, with
    the error of that entry on the tree the loop started from, the earlier
    entries created and reported and nothing else changed. *)
Lemma ensure_structure_fail_at l1 d l2 fs log :
  wf fs → all_creatable fs l1 → creatable fs (join_cwd d) = false →
  ensure_structure (l1 ++ d :: l2) (World fs log) =
  (World (fs ∪ closure l1) (log ++ map progress l1),
   inl (OSError (makedirs_err fs (join_cwd d)))).
Proof.
  revert fs log. induction l1 as [|d0 l1 IH]; intros fs log Hwf Hall Hc.
  - unfold ensure_structure, closure. simpl. unfold bind at 1.
    unfold create_one, bind. rewrite (makedirs_fail_err fs log _ Hwf Hc).
    by rewrite (right_id_L ∅ (∪)), app_nil_r.
  - apply Forall_cons in Hall as [Hd0 Hall].
    unfold ensure_structure in *. cbn [app for_each]. unfold bind at 1.
    rewrite (create_one_ok fs log d0 Hwf Hd0), IH.
    + rewrite closure_cons, (assoc_L (∪)), <- app_assoc.
      by rewrite makedirs_err_union_chain.
    + by apply wf_union_chain.
    + by apply all_creatable_union_chain.
    + by rewrite creatable_union_chain.
Qed.

(** Every run of the loop, with its error spelled out. *)
Lemma ensure_structure_cases paths fs log :
  wf fs →
  (all_creatable fs paths ∧
   ensure_structure paths (World fs log) =
     (World (fs ∪ closure paths) (log ++ map progress paths), inr tt)) ∨
  (∃ l1 d l2,
     paths = l1 ++ d :: l2 ∧ all_creatable fs l1 ∧
     creatable fs (join_cwd d) = false ∧
     ensure_structure paths (World fs log) =
       (World (fs ∪ closure l1) (log ++ map progress l1),
        inl (OSError (makedirs_err fs (join_cwd d))))).
Proof.
  intros Hwf.
  destruct (ensure_structure_run paths fs log Hwf)
    as (l1 & l2 & r & -> & Hall & Hrun & [[-> ->]|(d & l2' & e & -> & Hd & _)]).
  - left. rewrite app_nil_r in *. by split.
  - right. exists l1, d, l2'. split; [done|]. split; [done|]. split; [done|].
    by apply ensure_structure_fail_at.
Qed.

End LoopErrors.

(** ** Further properties of the script *)

Lemma wf_file_at_src : wf file_at_src.
Proof. by apply wfb_wf. Qed.

Lemma loop_file_at_src log :
  ensure_structure dirs (World file_at_src log) =
  (World file_at_src log, inl (OSError NotADirectoryError)).
Proof.
  assert (creatable file_at_src (join_cwd "src/app/api/ai/chat") = false) as Hc
    by (vm_compute; reflexivity).
  pose proof (ensure_structure_fail_at [] "src/app/api/ai/chat" (tail dirs)
                file_at_src log wf_file_at_src (Forall_nil_2 _) Hc) as H.
  cbn [app map] in H. unfold closure in H. cbn [foldr] in H.
  rewrite (right_id_L ∅ (∪)), app_nil_r in H. exact H.
Qed.

(** X1. Whatever way the loop ends, every entry of the tree it started from
    is still there and is what it was: the loop deletes nothing, replaces
    no file and changes no directory that exists. *)
Theorem X1_existing_entries_kept fs0 log0 w r :
  wf fs0 →
  ensure_structure dirs (World fs0 log0) = (w, r) →
  ∀ p x, fs0 !! p = Some x → w_fs w !! p = Some x.
Proof.
  intros Hwf Hrun p x Hp.
  destruct (ensure_structure_run dirs fs0 log0 Hwf)
    as (l1 & l2 & r' & _ & _ & Hrun' & _).
  rewrite Hrun in Hrun'. injection Hrun' as -> _. cbn [w_fs].
  by apply lookup_union_Some_l.
Qed.

Lemma X1_existing_entries_kept_witness :
  wf file_at_src ∧
  ensure_structure dirs (World file_at_src banner) =
    (World file_at_src banner, inl (OSError NotADirectoryError)) ∧
  file_at_src !! ["src"] = Some File ∧
  w_fs (World file_at_src banner) !! ["src"] = Some File.
Proof.
  assert (file_at_src !! ["src"] = Some File) as Hp by apply lookup_insert_eq.
  exact (conj wf_file_at_src (conj (loop_file_at_src banner) (conj Hp
           (X1_existing_entries_kept file_at_src banner _ _ wf_file_at_src
              (loop_file_at_src banner) ["src"] File Hp)))).
Defined.

(** X5. The exit status is 0 or 1.  It is 0 exactly when the loop has run
    to its end and the installer was launched and returned 0; and the run
    ends without a traceback exactly when the loop has run to its end and
    the installer could be launched, whatever it returned. *)
Theorem X5_exit_status installer exc_str fs0 :
  wf fs0 →
  let o := python (main installer exc_str) fs0 in
  (status o = 0 ∨ status o = 1) ∧
  (status o = 0 ↔
   ∃ w1 fs' out,
     ensure_structure dirs (World fs0 banner) = (w1, inr tt) ∧
     installer npm_install (w_fs w1) = Exited fs' out 0) ∧
  (traceback o = None ↔
   ∃ w1 fs' out rc,
     ensure_structure dirs (World fs0 banner) = (w1, inr tt) ∧
     installer npm_install (w_fs w1) = Exited fs' out rc).
Proof.
  intros Hwf o. subst o. unfold main.
  pose proof (python_script_cases installer exc_str dirs fs0 Hwf) as Hcases.
  cbv zeta in Hcases.
  destruct Hcases as [(l1 & d & l2 & e & _ & _ & _ & Hloop & Ho)|(_ & Hloop & Ho)].
  - rewrite Ho. cbn [status traceback]. split; [by right|].
    split; (split; [done|]).
    + intros (w1 & fs' & out & Hloop' & _). congruence.
    + intros (w1 & fs' & out & rc & Hloop' & _). congruence.
  - destruct (installer npm_install (fs0 ∪ closure dirs))
      as [e|fs' out rc] eqn:Hinst.
    + rewrite Ho. cbn [status traceback]. split; [by right|].
      split; (split; [done|]).
      * intros (w1 & fs' & out & Hloop' & Hinst').
        rewrite Hloop in Hloop'. injection Hloop' as <-. cbn [w_fs] in Hinst'.
        congruence.
      * intros (w1 & fs' & out & rc & Hloop' & Hinst').
        rewrite Hloop in Hloop'. injection Hloop' as <-. cbn [w_fs] in Hinst'.
        congruence.
    + destruct (Z.eqb_spec rc 0) as [->|Hrc]; rewrite Ho; cbn [status traceback].
      * split; [by left|]. split; (split; [intros _|done]).
        -- by eexists _, fs', out.
        -- by eexists _, fs', out, 0.
      * split; [by right|]. split.
        -- split; [done|]. intros (w1 & fs1 & out1 & Hloop' & Hinst').
           rewrite Hloop in Hloop'. injection Hloop' as <-.
           cbn [w_fs] in Hinst'. congruence.
        -- split; [intros _|done]. by eexists _, fs', out, rc.
Qed.

Lemma X5_exit_status_witness :
  wf empty_base ∧
  (status (python (main (exits_with 2) str_status_2) empty_base) = 0 ∨
   status (python (main (exits_with 2) str_status_2) empty_base) = 1).
Proof.
  exact (conj wf_empty_base
           (proj1 (X5_exit_status (exits_with 2) str_status_2 empty_base
                     wf_empty_base))).
Defined.

Lemma closing_line_not_before (s : string) (l out : list string) :
  (s = newline +:+ "Project setup complete!" ∨
   (∃ t, s = "Error installing dependencies: " +:+ t)) →
  (Print s ∉ banner ++ map progress l) ∧
  (Print s ∉ (((banner ++ map progress l) ++ handover) ++ [Exec npm_install])
             ++ map ChildOutput out).
Proof.
  intros Hs.
  assert (Print s ∉ banner ++ map progress l) as Hbefore.
  { intros [Hin|Hin]%elem_of_app.
    - apply list_elem_of_singleton in Hin. by destruct Hs as [->|[t ->]].
    - apply list_elem_of_fmap in Hin as (d & Hd & _).
      unfold progress in Hd. by destruct Hs as [->|[t ->]]. }
  split; [done|]. rewrite !elem_of_app. intros [[[Hin|Hin]|Hin]|Hin].
  - apply Hbefore. by apply elem_of_app.
  - unfold handover in Hin.
    repeat apply elem_of_cons in Hin as [Hin|Hin];
      [by destruct Hs as [->|[t ->]]..|by apply elem_of_nil in Hin].
  - by apply list_elem_of_singleton in Hin.
  - by apply list_elem_of_fmap in Hin as (t & ? & _).
Qed.

(** X6. The closing line tells how the run ended: the success message is
    printed exactly in the runs that end with status 0, and an install
    error report exactly in the runs that end with status 1 and no
    traceback, that is through [exit(1)]. *)
Theorem X6_closing_line installer exc_str fs0 :
  wf fs0 →
  let o := python (main installer exc_str) fs0 in
  (Print (newline +:+ "Project setup complete!") ∈ w_log (final o) ↔
   status o = 0) ∧
  ((∃ t, Print ("Error installing dependencies: " +:+ t) ∈ w_log (final o)) ↔
   status o = 1 ∧ traceback o = None).
Proof.
  intros Hwf o. subst o. unfold main.
  pose proof (python_script_cases installer exc_str dirs fs0 Hwf) as Hcases.
  cbv zeta in Hcases.
  destruct Hcases as [(l1 & d & l2 & e & _ & _ & _ & _ & Ho)|(_ & _ & Ho)].
  - rewrite Ho. cbn [final status traceback w_log]. split.
    + split; [|done]. intros Hin.
      by apply (closing_line_not_before _ l1 []) in Hin; [|left].
    + split; [|by intros [_ ?]]. intros [t Hin].
      by apply (closing_line_not_before _ l1 []) in Hin; [|right; exists t].
  - destruct (installer npm_install (fs0 ∪ closure dirs)) as [e|fs' out rc].
    + rewrite Ho. cbn [final status traceback w_log]. split.
      * split; [|done]. intros Hin.
        pose proof (proj2 (closing_line_not_before _ dirs []
                             (or_introl eq_refl))) as Hnot.
        cbn [map] in Hnot. rewrite app_nil_r in Hnot. by apply Hnot in Hin.
      * split; [|by intros [_ ?]]. intros [t Hin].
        pose proof (proj2 (closing_line_not_before _ dirs []
                             (or_intror (ex_intro _ t eq_refl)))) as Hnot.
        cbn [map] in Hnot. rewrite app_nil_r in Hnot. by apply Hnot in Hin.
    + destruct (Z.eqb rc 0); rewrite Ho; cbn [final status traceback w_log].
      * split.
        -- split; [done|]. intros _. apply elem_of_app. right. left.
        -- split; [|by intros [? _]]. intros [t Hin].
           apply elem_of_app in Hin as [Hin|Hin].
           ++ by apply (closing_line_not_before _ dirs out) in Hin;
                [|right; exists t].
           ++ by apply list_elem_of_singleton in Hin.
      * split.
        -- split; [|done]. intros Hin.
           apply elem_of_app in Hin as [Hin|Hin].
           ++ by apply (closing_line_not_before _ dirs out) in Hin; [|left].
           ++ by apply list_elem_of_singleton in Hin.
        -- split; [done|]. intros _. eexists. apply elem_of_app. right. left.
Qed.

Lemma X6_closing_line_witness :
  wf empty_base ∧
  (Print (newline +:+ "Project setup complete!") ∈
     w_log (final (python (main (exits_with 0) str_status_2) empty_base)) ↔
   status (python (main (exits_with 0) str_status_2) empty_base) = 0).
Proof.
  exact (conj wf_empty_base
           (proj1 (X6_closing_line (exits_with 0) str_status_2 empty_base
                     wf_empty_base))).
Defined.





Lemma makedirs_err_union_closure (fs : FS) (paths : list string) (p : path) :
  wf fs → all_creatable fs paths → creatable fs p = false →
  makedirs_err (fs ∪ closure paths) p = makedirs_err fs p.
Proof.
  revert fs. induction paths as [|d rest IH]; intros fs Hwf Hall Hc.
  - unfold closure. simpl. by rewrite (right_id_L ∅ (∪)).
  - apply Forall_cons in Hall as [Hd Hrest].
    rewrite closure_cons, (assoc_L (∪)), IH.
    + by apply makedirs_err_union_chain.
    + by apply wf_union_chain.
    + by apply all_creatable_union_chain.
    + by rewrite creatable_union_chain.
Qed.

(** X8. A failed loop can be run again without harm and without gain: on
    the tree it left, the loop reports the same entries again, stops at the
    same entry with the same error and leaves the tree as it is. *)
Theorem X8_failure_repeats fs0 log0 w e log1 :
  wf fs0 →
  ensure_structure dirs (World fs0 log0) = (w, inl e) →
  ∃ lines,
    w_log w = log0 ++ lines ∧
    ensure_structure dirs (World (w_fs w) log1) =
      (World (w_fs w) (log1 ++ lines), inl e).
Proof.
  intros Hwf Hrun.
  destruct (ensure_structure_cases dirs fs0 log0 Hwf)
    as [[_ Hrun']|(l1 & d & l2 & Hs & Hall & Hc & Hrun')]; [congruence|].
  rewrite Hrun in Hrun'. injection Hrun' as -> ->. cbn [w_fs w_log].
  exists (map progress l1). split; [done|].
  rewrite Hs at 1.
  rewrite ensure_structure_fail_at.
  - rewrite makedirs_err_union_closure by done.
    by rewrite <- (assoc_L (∪)), (idemp_L (∪)).
  - by apply wf_union_closure.
  - unfold all_creatable in *. rewrite Forall_forall in *. intros d' Hd'.
    rewrite creatable_union_closure; [by apply Hall|done|].
    by apply Forall_forall.
  - by rewrite creatable_union_closure.
Qed.

Lemma X8_failure_repeats_witness :
  wf file_at_src ∧
  ensure_structure dirs (World file_at_src banner) =
    (World file_at_src banner, inl (OSError NotADirectoryError)) ∧
  ∃ lines,
    w_log (World file_at_src banner) = banner ++ lines ∧
    ensure_structure dirs (World (w_fs (World file_at_src banner)) []) =
      (World (w_fs (World file_at_src banner)) ([] ++ lines),
       inl (OSError NotADirectoryError)).
Proof.
  exact (conj wf_file_at_src (conj (loop_file_at_src banner)
           (X8_failure_repeats file_at_src banner _ _ []
              wf_file_at_src (loop_file_at_src banner)))).
Defined.

(** X9. The line that announces the structure is printed exactly in the
    runs whose loop has run to its end, whatever the installer does
    afterwards; a run that fails to create a directory never prints it. *)
Theorem X9_structure_message installer exc_str fs0 :
  wf fs0 →
  let o := python (main installer exc_str) fs0 in
  Print (newline +:+ "Structure created successfully!") ∈ w_log (final o) ↔
  ∃ w1, ensure_structure dirs (World fs0 banner) = (w1, inr tt).
Proof.
  intros Hwf o. subst o. unfold main.
  pose proof (python_script_cases installer exc_str dirs fs0 Hwf) as Hcases.
  cbv zeta in Hcases.
  destruct Hcases as [(l1 & d & l2 & e & _ & _ & _ & Hloop & Ho)|(_ & Hloop & Ho)].
  - rewrite Ho. cbn [final w_log]. split.
    + intros [Hin|Hin]%elem_of_app.
      * by apply list_elem_of_singleton in Hin.
      * apply list_elem_of_fmap in Hin as (d' & Hd' & _).
        by unfold progress in Hd'.
    + intros [w1 Hloop']. congruence.
  - split; [by eexists|]. intros _.
    assert (Print (newline +:+ "Structure created successfully!") ∈
            (banner ++ map progress dirs) ++ handover) as Hin.
    { apply elem_of_app. right. left. }
    destruct (installer npm_install (fs0 ∪ closure dirs)) as [e|fs' out rc];
      [|destruct (Z.eqb rc 0)]; rewrite Ho; cbn [final w_log];
      rewrite !elem_of_app; rewrite !elem_of_app in Hin; tauto.
Qed.

Lemma X9_structure_message_witness :
  wf file_at_src ∧
  (Print (newline +:+ "Structure created successfully!") ∈
     w_log (final (python (main (exits_with 0) str_status_2) file_at_src)) ↔
   ∃ w1, ensure_structure dirs (World file_at_src banner) = (w1, inr tt)).
Proof.
  exact (conj wf_file_at_src
           (X9_structure_message (exits_with 0) str_status_2 file_at_src
              wf_file_at_src)).
Defined.
